(** * monoculum/errors: errors that carry a stack trace

    A shallow embedding of the Go package [errors] (a copy of
    github.com/go-errors/errors) and the properties its specification
    states about it.

    Go values live in a store: a [*CommonError] and the [*errorString]
    made by [fmt.Errorf] are addresses, so that identity ([==] on
    interface values) and in-place mutation ([WrapPrefix], the cache of
    [StackFrames]) are those of the program.  A run-time panic is an
    outcome of its own, and the recursions of [Error] and [Is] through
    nested errors take fuel. *)

From Stdlib Require Import ZArith String Ascii List Lia DecimalString.
From stdpp Require Import base list strings.

Open Scope string_scope.
Open Scope list_scope.
Open Scope Z_scope.

(** ** Values *)

Abbreviation addr := nat.
Abbreviation uintptr := Z.

(** Values of types that have no [Error] method. *)
Inductive basic : Type :=
| BString (s : string)
| BInt (n : Z)
| BBool (b : bool).

(** A user-defined error type with value semantics: its qualified name
    is [et_pkg.et_name]; [et_comparable] tells whether Go's [==] is
    defined on it (a type built on a slice or a map is not). *)
Record errtype : Type := {
  et_pkg : string;
  et_name : string;
  et_comparable : bool
}.

(** The dynamic value held by a non-nil [error] interface. *)
Inductive dynerror : Type :=
| EString (a : addr)                 (* *errors.errorString, a pointer *)
| EPanic (m : string)                (* uncaughtPanic, a struct value *)
| ECustom (t : errtype) (m : string) (* a user's value-typed error *)
| ECommon (p : option addr).         (* *CommonError; None is the nil pointer *)

(** Go's [error] interface: [None] is the nil interface. *)
Definition error := option dynerror.

(** Go's [interface{}], as the constructors receive it. *)
Inductive value : Type :=
| VNil
| VBasic (b : basic)
| VError (d : dynerror).

Definition of_error (e : error) : value :=
  match e with
  | None => VNil
  | Some d => VError d
  end.

#[global] Instance basic_eq_dec : EqDecision basic.
Proof. solve_decision. Defined.
#[global] Instance errtype_eq_dec : EqDecision errtype.
Proof. solve_decision. Defined.
#[global] Instance dynerror_eq_dec : EqDecision dynerror.
Proof. solve_decision. Defined.
#[global] Instance value_eq_dec : EqDecision value.
Proof. solve_decision. Defined.

(** ** The store *)

Record StackFrame : Type := {
  File : string;
  LineNumber : string;
  Name : string;
  Package : string;
  ProgramCounter : uintptr
}.

(** [frames] is a slice: [None] is the nil slice, [Some r] the slice
    whose backing array is at [r]. *)
Record CommonError : Type := {
  Err : error;
  stack : list uintptr;
  frames : option addr;
  prefix : string
}.

Record state : Type := {
  MaxStackDepth : Z;
  messages : list string;          (* the *errorString objects *)
  objects : list CommonError;      (* the *CommonError objects *)
  arrays : list (list StackFrame)  (* backing arrays of []StackFrame *)
}.

Definition set_messages (s : state) (l : list string) : state :=
  {| MaxStackDepth := MaxStackDepth s; messages := l;
     objects := objects s; arrays := arrays s |}.

Definition set_objects (s : state) (l : list CommonError) : state :=
  {| MaxStackDepth := MaxStackDepth s; messages := messages s;
     objects := l; arrays := arrays s |}.

Definition set_arrays (s : state) (l : list (list StackFrame)) : state :=
  {| MaxStackDepth := MaxStackDepth s; messages := messages s;
     objects := objects s; arrays := l |}.

Definition set_MaxStackDepth (s : state) (n : Z) : state :=
  {| MaxStackDepth := n; messages := messages s;
     objects := objects s; arrays := arrays s |}.

Definition set_prefix (c : CommonError) (p : string) : CommonError :=
  {| Err := Err c; stack := stack c; frames := frames c; prefix := p |}.

Definition set_frames (c : CommonError) (r : option addr) : CommonError :=
  {| Err := Err c; stack := stack c; frames := r; prefix := prefix c |}.

(** The state of a program that has not allocated anything yet;
    [MaxStackDepth] has its initial value. *)
Definition initial : state :=
  {| MaxStackDepth := 50; messages := []; objects := []; arrays := [] |}.

(** ** Outcomes *)

Inductive fault : Type :=
| NilDereference   (* field access through a nil pointer *)
| NilInterface     (* method call on a nil interface *)
| Uncomparable     (* == on values of an uncomparable type *)
| NegativeLen      (* make with a negative length *)
| Dangling.        (* an address outside the store: no Go program has one *)

Inductive outcome (A : Type) : Type :=
| Ret (x : A)
| Panic (f : fault)
| OutOfFuel.

Arguments Ret {A} x.
Arguments Panic {A} f.
Arguments OutOfFuel {A}.

Definition obind {A B : Type} (m : outcome A) (k : A -> outcome B) : outcome B :=
  match m with
  | Ret x => k x
  | Panic f => Panic f
  | OutOfFuel => OutOfFuel
  end.

(** Computations that read and write the store. *)
Definition M (A : Type) : Type := state -> outcome (A * state).

Definition ret {A : Type} (x : A) : M A := fun s => Ret (x, s).

Definition bind {A B : Type} (m : M A) (k : A -> M B) : M B :=
  fun s => match m s with
           | Ret (x, s') => k x s'
           | Panic f => Panic f
           | OutOfFuel => OutOfFuel
           end.

Definition panic {A : Type} (f : fault) : M A := fun _ => Panic f.

(** A computation that only reads the store. *)
Definition lift {A : Type} (r : state -> outcome A) : M A :=
  fun s => obind (r s) (fun x => Ret (x, s)).

Declare Scope go_scope.
Delimit Scope go_scope with go.
Notation "'let!' x ':=' m 'in' k" := (bind m (fun x => k))
  (at level 10, x name, m at level 100, k at level 200) : go_scope.
Notation "'let?' x ':=' m 'in' k" := (obind m (fun x => k))
  (at level 10, x name, m at level 100, k at level 200) : go_scope.
Open Scope go_scope.

(** ** The fragment of package fmt the library uses

    Operands are nil or basic values; the directives are [%v], [%d],
    [%s], [%t] and [%%], without flags, width or precision. *)

Definition operand := option basic.

Definition itoa (n : Z) : string := NilZero.string_of_int (Z.to_int n).

Definition type_of_basic (b : basic) : string :=
  match b with
  | BString _ => "string"
  | BInt _ => "int"
  | BBool _ => "bool"
  end.

Definition format_v (o : operand) : string :=
  match o with
  | None => "<nil>"
  | Some (BString s) => s
  | Some (BInt n) => itoa n
  | Some (BBool b) => if b then "true" else "false"
  end.

Definition typed_operand (o : operand) : string :=
  match o with
  | None => "<nil>"
  | Some b => type_of_basic b +:+ "=" +:+ format_v o
  end.

Definition bad_verb (c : ascii) (o : operand) : string :=
  "%!" +:+ String c ("(" +:+ typed_operand o +:+ ")").

Definition print_verb (c : ascii) (o : operand) : string :=
  if Ascii.eqb c "v" then format_v o
  else if Ascii.eqb c "d" then
    match o with Some (BInt n) => itoa n | _ => bad_verb c o end
  else if Ascii.eqb c "s" then
    match o with Some (BString s) => s | _ => bad_verb c o end
  else if Ascii.eqb c "t" then
    match o with Some (BBool _) => format_v o | _ => bad_verb c o end
  else bad_verb c o.

Fixpoint join_operands (a : list operand) : string :=
  match a with
  | [] => ""
  | [o] => typed_operand o
  | o :: a' => typed_operand o +:+ ", " +:+ join_operands a'
  end.

Definition extra (a : list operand) : string :=
  match a with
  | [] => ""
  | _ => "%!(EXTRA " +:+ join_operands a +:+ ")"
  end.

Fixpoint Sprintf (format : string) (a : list operand) : string :=
  match format with
  | EmptyString => extra a
  | String c rest =>
      if Ascii.eqb c "%" then
        match rest with
        | EmptyString => "%!(NOVERB)" +:+ extra a
        | String v rest' =>
            if Ascii.eqb v "%" then String "%" (Sprintf rest' a)
            else match a with
                 | [] => "%!" +:+ String v ("(MISSING)" +:+ Sprintf rest' [])
                 | o :: a' => print_verb v o +:+ Sprintf rest' a'
                 end
        end
      else String c (Sprintf rest a)
  end.

(** [errors.New]: a fresh [*errorString]. *)
Definition errors_New (m : string) : M error :=
  fun s => Ret (Some (EString (length (messages s))),
                set_messages s (messages s ++ [m])).

Definition fmt_Errorf (format : string) (a : list operand) : M error :=
  errors_New (Sprintf format a).

(** ** The runtime

    What the library takes from the Go runtime: the return addresses
    that identify its own frames on the call stack, and the symbol
    table that [runtime.FuncForPC] consults. *)

Record FuncInfo : Type := {
  fn_package : string;
  fn_name : string;
  fn_file : string;
  fn_line : Z
}.

Class Runtime : Type := {
  pc_Callers : uintptr;
  pc_New : uintptr;
  pc_Wrap : uintptr;
  pc_WrapPrefix : uintptr;
  pc_Errorf : uintptr;
  FuncForPC : uintptr -> option FuncInfo
}.

(** Go's [int] is 64 bits wide and wraps around. *)
Definition wrap_int (n : Z) : Z := (n + 2 ^ 63) mod 2 ^ 64 - 2 ^ 63.

Definition int_add (x y : Z) : Z := wrap_int (x + y).

(** [make([]uintptr, n)] *)
Definition make_uintptr (n : Z) : M (list uintptr) :=
  if n <? 0 then panic NegativeLen else ret (replicate (Z.to_nat n) 0).

(** [runtime.Callers(skip, pc)]: [goroutine] is the call stack, the
    frame of [runtime.Callers] itself first; the return addresses after
    the first [skip] are written to the front of the buffer and their
    number is returned.  A negative [skip] skips nothing. *)
Definition runtime_Callers (skip : Z) (pc : list uintptr)
    (goroutine : list uintptr) : nat * list uintptr :=
  let written := take (length pc) (drop (Z.to_nat skip) goroutine) in
  (length written, written ++ drop (length written) pc).

Definition get_MaxStackDepth : M Z := fun s => Ret (MaxStackDepth s, s).

(** [&CommonError{...}] *)
Definition new_CommonError (c : CommonError) : M (option addr) :=
  fun s => Ret (Some (length (objects s)), set_objects s (objects s ++ [c])).

(** Reading a field of [*p]. *)
Definition deref (p : option addr) (s : state) : outcome CommonError :=
  match p with
  | None => Panic NilDereference
  | Some a =>
      match objects s !! a with
      | Some c => Ret c
      | None => Panic Dangling
      end
  end.

(** Writing a field of [*p]: [f] is the update of the struct. *)
Definition assign (p : option addr) (f : CommonError -> CommonError) : M unit :=
  fun s =>
    match p with
    | None => Panic NilDereference
    | Some a =>
        match objects s !! a with
        | Some c => Ret (tt, set_objects s (<[a := f c]> (objects s)))
        | None => Panic Dangling
        end
    end.

(** [make([]StackFrame, n)] followed by the loop that fills it. *)
Definition zero_StackFrame : StackFrame :=
  {| File := ""; LineNumber := ""; Name := ""; Package := "";
     ProgramCounter := 0 |}.

Definition new_array (l : list StackFrame) : M (option addr) :=
  fun s => Ret (Some (length (arrays s)), set_arrays s (arrays s ++ [l])).

Definition write_array (r : option addr) (i : nat) (f : StackFrame) : M unit :=
  fun s =>
    match r with
    | None => Panic NilDereference
    | Some a =>
        match arrays s !! a with
        | Some l => Ret (tt, set_arrays s (<[a := <[i := f]> l]> (arrays s)))
        | None => Panic Dangling
        end
    end.

(** The elements of a slice; the nil slice has none. *)
Definition read_array (r : option addr) (s : state) : outcome (list StackFrame) :=
  match r with
  | None => Ret []
  | Some a =>
      match arrays s !! a with
      | Some l => Ret l
      | None => Panic Dangling
      end
  end.

Definition nl : string := String (ascii_of_nat 10) EmptyString.
Definition tab : string := String (ascii_of_nat 9) EmptyString.

(** [for i, x := range l { body i x }] *)
Fixpoint range {A : Type} (body : nat -> A -> M unit) (i : nat) (l : list A) : M unit :=
  match l with
  | [] => ret tt
  | x :: l' => let! _ := body i x in range body (S i) l'
  end.

Section Library.

Context {rt : Runtime}.

(** Modelled from the spec: the Frame Resolver ([NewStackFrame]) and
    the rendering of a resolved frame ([StackFrame.String]), whose
    source is not among the repository's files.  A frame has an
    address and four best-effort strings; an address the symbol table
    does not know yields the placeholder "unknown"; a frame renders as
    a block of two lines, the function identifier and then, indented,
    the file and line number. *)
Definition NewStackFrame (pc : uintptr) : StackFrame :=
  match FuncForPC pc with
  | Some f =>
      {| File := fn_file f; LineNumber := itoa (fn_line f);
         Name := fn_name f; Package := fn_package f; ProgramCounter := pc |}
  | None =>
      {| File := "unknown"; LineNumber := "unknown";
         Name := "unknown"; Package := "unknown"; ProgramCounter := pc |}
  end.

Definition StackFrame_String (frame : StackFrame) : string :=
  Package frame +:+ "." +:+ Name frame +:+ nl +:+
  tab +:+ File frame +:+ ":" +:+ LineNumber frame +:+ nl.

(** The operand of [fmt.Errorf("%v", e)] in the [default] case of the
    type switches, where [e] holds no error. *)
Definition default_operand (e : value) : operand :=
  match e with
  | VBasic b => Some b
  | _ => None
  end.

(** [callers] is the call stack at the call of the function: the
    return address into the caller first. *)
Definition New (callers : list uintptr) (e : value) : M (option addr) :=
  let! err := match e with
              | VError d => ret (Some d)
              | _ => fmt_Errorf "%v" [default_operand e]
              end in
  let! depth := get_MaxStackDepth in
  let! stack := make_uintptr depth in
  let (length, stack) :=
    runtime_Callers 2 stack (pc_Callers :: pc_New :: callers) in
  new_CommonError
    {| Err := err; stack := take length stack; frames := None; prefix := "" |}.

Definition Wrap (callers : list uintptr) (e : value) (skip : Z) : M (option addr) :=
  match e with
  | VError (ECommon p) => ret p
  | _ =>
      let! err := match e with
                  | VError d => ret (Some d)
                  | _ => fmt_Errorf "%v" [default_operand e]
                  end in
      let! depth := get_MaxStackDepth in
      let! stack := make_uintptr depth in
      let (length, stack) :=
        runtime_Callers (int_add 2 skip) stack (pc_Callers :: pc_Wrap :: callers) in
      new_CommonError
        {| Err := err; stack := take length stack; frames := None; prefix := "" |}
  end.

Definition Unwrap (e : error) : M error :=
  match e with
  | Some (ECommon p) => let! c := lift (deref p) in ret (Err c)
  | Some _ => ret e
  | None => fmt_Errorf "%v" [None]
  end.

Definition WrapPrefix (callers : list uintptr) (e : value) (prefix0 : string)
    (skip : Z) : M (option addr) :=
  let! err := Wrap (pc_WrapPrefix :: callers) e skip in
  let! c := lift (deref err) in
  let! _ := if negb (String.eqb (prefix c) "")
            then assign err (fun c' => set_prefix c'
                   (Sprintf "%s: %s" [Some (BString prefix0); Some (BString (prefix c))]))
            else assign err (fun c' => set_prefix c' prefix0) in
  ret err.

(** Go's [==] on two [error] interfaces: equal dynamic types and equal
    values; pointers compare by address. *)
Definition iface_eq (x y : error) : outcome bool :=
  match x, y with
  | None, None => Ret true
  | Some (EString a), Some (EString b) => Ret (bool_decide (a = b))
  | Some (EPanic m), Some (EPanic m') => Ret (bool_decide (m = m'))
  | Some (ECustom t m), Some (ECustom t' m') =>
      if bool_decide (t = t')
      then if et_comparable t then Ret (bool_decide (m = m')) else Panic Uncomparable
      else Ret false
  | Some (ECommon p), Some (ECommon q) => Ret (bool_decide (p = q))
  | _, _ => Ret false
  end.

Fixpoint Is (fuel : nat) (s : state) (e original : error) : outcome bool :=
  match fuel with
  | O => OutOfFuel
  | S fuel' =>
      let? same := iface_eq e original in
      if same then Ret true
      else match e with
           | Some (ECommon p) =>
               let? c := deref p s in Is fuel' s (Err c) original
           | _ =>
               match original with
               | Some (ECommon q) =>
                   let? c := deref q s in Is fuel' s e (Err c)
               | _ => Ret false
               end
           end
  end.

Definition Errorf (callers : list uintptr) (format : string) (a : list operand)
    : M (option addr) :=
  let! e := fmt_Errorf format a in
  Wrap (pc_Errorf :: callers) (of_error e) 1.

(** The call [e.Error()] on an interface value; [self] is the method of
    [*CommonError]. *)
Definition error_Error (self : option addr -> outcome string) (s : state)
    (e : error) : outcome string :=
  match e with
  | None => Panic NilInterface
  | Some (EString a) =>
      match messages s !! a with
      | Some m => Ret m
      | None => Panic Dangling
      end
  | Some (EPanic m) => Ret m
  | Some (ECustom _ m) => Ret m
  | Some (ECommon p) => self p
  end.

Fixpoint Error (fuel : nat) (s : state) (err : option addr) : outcome string :=
  match fuel with
  | O => OutOfFuel
  | S fuel' =>
      let? c := deref err s in
      let? msg := error_Error (Error fuel' s) s (Err c) in
      if negb (String.eqb (prefix c) "")
      then Ret (Sprintf "%s: %s" [Some (BString (prefix c)); Some (BString msg)])
      else Ret msg
  end.

Definition StackFrames (err : option addr) : M (option addr) :=
  let! c := lift (deref err) in
  let! _ := match frames c with
            | None =>
                let! r := new_array (replicate (length (stack c)) zero_StackFrame) in
                let! _ := assign err (fun c' => set_frames c' r) in
                range (fun i pc => write_array r i (NewStackFrame pc)) 0 (stack c)
            | Some _ => ret tt
            end in
  let! c' := lift (deref err) in
  ret (frames c').

Definition Stack (err : option addr) : M string :=
  let! r := StackFrames err in
  let! l := lift (read_array r) in
  ret (fold_left (fun buf frame => buf +:+ StackFrame_String frame) l "").

Definition ErrorStack (fuel : nat) (err : option addr) : M string :=
  let! msg := lift (fun s => Error fuel s err) in
  let! st := Stack err in
  ret (msg +:+ nl +:+ st).

(** [reflect.TypeOf(e).String()]; [reflect.TypeOf(nil)] is the nil
    [Type], whose method cannot be called. *)
Definition reflect_TypeOf_String (e : error) : outcome string :=
  match e with
  | None => Panic NilInterface
  | Some (EString _) => Ret "*errors.errorString"
  | Some (EPanic _) => Ret "errors.uncaughtPanic"
  | Some (ECustom t _) => Ret (et_pkg t +:+ "." +:+ et_name t)
  | Some (ECommon _) => Ret "*errors.CommonError"
  end.

Definition TypeName (s : state) (err : option addr) : outcome string :=
  let? c := deref err s in
  match Err c with
  | Some (EPanic _) => Ret "panic"
  | e => reflect_TypeOf_String e
  end.

Definition TypeErrorStack (fuel : nat) (err : option addr) : M string :=
  let! t := lift (fun s => TypeName s err) in
  let! msg := lift (fun s => Error fuel s err) in
  let! st := Stack err in
  ret (t +:+ " " +:+ msg +:+ nl +:+ st).

End Library.

(** ** Notions the properties are stated with *)

(** An argument of the library is well formed in a store when the
    pointer it holds, if any, is allocated there; a nil [*CommonError]
    held in an interface is not well formed. *)
Definition wf_error (s : state) (e : error) : bool :=
  match e with
  | Some (EString x) => bool_decide (x < length (messages s))%nat
  | Some (ECommon (Some b)) => bool_decide (b < length (objects s))%nat
  | Some (ECommon None) => false
  | _ => true
  end.


(** The object at address [a] is well formed: [Err] is not nil, it
    points to an object allocated before, and a cached slice of frames
    has one frame per captured address. *)
Definition wf_object (s : state) (a : addr) (c : CommonError) : bool :=
  match Err c with
  | None => false
  | Some (EString x) => bool_decide (x < length (messages s))%nat
  | Some (ECommon q) =>
      match q with
      | Some b => bool_decide (b < a)%nat
      | None => false
      end
  | Some _ => true
  end
  &&
  match frames c with
  | None => true
  | Some r =>
      match arrays s !! r with
      | Some l => bool_decide (length l = length (stack c))
      | None => false
      end
  end.

Fixpoint wf_objects (s : state) (a : addr) (l : list CommonError) : bool :=
  match l with
  | [] => true
  | c :: l' => wf_object s a c && wf_objects s (S a) l'
  end.

Definition wf_state (s : state) : bool := wf_objects s 0%nat (objects s).

(** Whether Go's [==] is defined on the dynamic type of [e]. *)
Definition comparable (e : error) : bool :=
  match e with
  | Some (ECustom t _) => et_comparable t
  | _ => true
  end.

(** The fully unwrapped value of [e]: [Err] is followed as long as
    the value is a [*CommonError]. *)
Fixpoint core (fuel : nat) (s : state) (e : error) : error :=
  match fuel with
  | O => e
  | S fuel' =>
      match e with
      | Some (ECommon (Some a)) =>
          match objects s !! a with
          | Some c => core fuel' s (Err c)
          | None => e
          end
      | _ => e
      end
  end.

Definition innermost (s : state) (e : error) : error :=
  core (length (objects s)) s e.

(** The prefix after [WrapPrefix]: the new one alone, or joined before
    the old one. *)
Definition compose_prefix (new old : string) : string :=
  if bool_decide (old = "") then new else new +:+ ": " +:+ old.




(** [wf_object] reads the store only through the number of
    [*errorString]s and the lengths of the frame arrays. *)
Definition extends (s s' : state) : Prop :=
  (length (messages s) <= length (messages s'))%nat
  /\ forall r l, arrays s !! r = Some l ->
       exists l', arrays s' !! r = Some l' /\ length l' = length l.

(** The number of objects an annotated error can have below it. *)
Definition rank (e : error) : nat :=
  match e with
  | Some (ECommon (Some a)) => S a
  | _ => 0
  end.

(** ** recover.go *)

(** [runtime.Stack(buf, false)]: [trace] is the formatted stack trace
    of the calling goroutine; as much of it as fits is written to the
    front of [buf], and the number of bytes written is returned. *)
Definition runtime_Stack (buf trace : list Byte.byte) : nat * list Byte.byte :=
  let written := take (length buf) trace in
  (length written, written ++ drop (length written) buf).

Definition Recover (trace : list Byte.byte) : list Byte.byte :=
  let stack := replicate (Z.to_nat (Z.shiftl 1 16)) Byte.x00 in
  let (length, stack) := runtime_Stack stack trace in
  take length stack.

(** Two stores hold the same errors when their objects have the same
    [Err] at every address. *)
Definition same_Err (s s' : state) : Prop :=
  forall a, Err <$> objects s' !! a = Err <$> objects s !! a.

(** A runtime and a few stores to evaluate the library on. *)
Definition sample_runtime : Runtime :=
  {| pc_Callers := 4096; pc_New := 4112; pc_Wrap := 4128;
     pc_WrapPrefix := 4144; pc_Errorf := 4160;
     FuncForPC := fun pc =>
       if pc =? 8192
       then Some {| fn_package := "main"; fn_name := "main";
                    fn_file := "/src/main.go"; fn_line := 12 |}
       else None |}.

Definition sample_callers : list uintptr := [8192; 8200].

(** One [*errorString] "disk full" and one [*CommonError] around it. *)
Definition sample_state : state :=
  {| MaxStackDepth := 50;
     messages := ["disk full"];
     objects := [ {| Err := Some (EString 0%nat); stack := [8192; 8200];
                     frames := None; prefix := "" |} ];
     arrays := [] |}.

(** The object of [sample_state]. *)
Definition sample_object : CommonError :=
  {| Err := Some (EString 0%nat); stack := [8192; 8200]; frames := None; prefix := "" |}.

(** Two [*errorString] with the same text, and an annotated error
    around the first. *)
Definition twin_state : state :=
  {| MaxStackDepth := 50;
     messages := ["same"; "same"];
     objects := [ {| Err := Some (EString 0%nat); stack := [8192];
                     frames := None; prefix := "" |} ];
     arrays := [] |}.

(** What the type switch of [New] and [Wrap] makes of a value that is
    not a [*CommonError]: an error is kept, anything else goes through
    [fmt.Errorf("%v", e)], which allocates. *)
Definition converted (s : state) (e : value) : error * state :=
  match e with
  | VError d => (Some d, s)
  | _ => (Some (EString (length (messages s))),
          set_messages s (messages s ++ [format_v (default_operand e)]))
  end.

(** The store after [&CommonError{Err: err, stack: stk}], and the new
    pointer. *)
Definition annotated (s : state) (err : error) (stk : list uintptr)
    : option addr * state :=
  (Some (length (objects s)),
   set_objects s
     (objects s ++ [ {| Err := err; stack := stk; frames := None; prefix := "" |} ])).

(** The addresses captured from a call stack: at most [depth] of them,
    after the first [skip]. *)
Definition captured (depth skip : Z) (goroutine : list uintptr) : list uintptr :=
  take (Z.to_nat depth) (drop (Z.to_nat skip) goroutine).

Definition is_annotated (e : value) : bool :=
  match e with
  | VError (ECommon _) => true
  | _ => false
  end.

Definition is_error (e : value) : bool :=
  match e with
  | VError _ => true
  | _ => false
  end.


(** The store after the prefix of the object at [a] is replaced. *)
Definition with_prefix (s : state) (a : addr) (p : string) : state :=
  match objects s !! a with
  | Some c => set_objects s (<[a := set_prefix c p]> (objects s))
  | None => s
  end.

(** The store after the frames of the object [c] at [a] have been
    resolved to [l] and cached in a new array. *)
Definition resolved (s : state) (a : addr) (c : CommonError)
    (l : list StackFrame) : state :=
  {| MaxStackDepth := MaxStackDepth s;
     messages := messages s;
     objects := <[a := set_frames c (Some (length (arrays s)))]> (objects s);
     arrays := arrays s ++ [l] |}.

(** The concatenation of the rendered frames. *)
Fixpoint blocks (render : StackFrame -> string) (l : list StackFrame) : string :=
  match l with
  | [] => ""
  | frame :: l' => render frame +:+ blocks render l'
  end.
(** ** Basic facts *)

Lemma append_empty_r (s : string) : s +:+ "" = s.
Proof.
  induction s as [|c s IH]; [reflexivity |].
  change (String c (s +:+ "") = String c s). now rewrite IH.
Qed.

Lemma append_assoc (a b c : string) : (a +:+ b) +:+ c = a +:+ (b +:+ c).
Proof.
  induction a as [|x a IH]; [reflexivity |].
  change (String x ((a +:+ b) +:+ c) = String x (a +:+ (b +:+ c))). now rewrite IH.
Qed.


Lemma Sprintf_v (o : operand) : Sprintf "%v" [o] = format_v o.
Proof. simpl. apply append_empty_r. Qed.

Lemma Sprintf_join (x y : string) :
  Sprintf "%s: %s" [Some (BString x); Some (BString y)] = x +:+ ": " +:+ y.
Proof. simpl. now rewrite append_empty_r. Qed.



Lemma runtime_Callers_written (skip : Z) (pc goroutine : list uintptr) :
  take (runtime_Callers skip pc goroutine).1 (runtime_Callers skip pc goroutine).2
  = take (length pc) (drop (Z.to_nat skip) goroutine).
Proof. unfold runtime_Callers. simpl. apply take_app_length. Qed.

Lemma make_uintptr_ok (n : Z) (s : state) :
  0 <= n -> make_uintptr n s = Ret (replicate (Z.to_nat n) 0, s).
Proof.
  intros H. unfold make_uintptr.
  destruct (Z.ltb_spec n 0); [lia | reflexivity].
Qed.

Lemma make_uintptr_negative (n : Z) (s : state) :
  n < 0 -> make_uintptr n s = Panic NegativeLen.
Proof.
  intros H. unfold make_uintptr.
  destruct (Z.ltb_spec n 0); [reflexivity | lia].
Qed.

Section Properties.

Context {rt : Runtime}.

Lemma New_eq (callers : list uintptr) (e : value) (s : state) :
  0 <= MaxStackDepth s ->
  New callers e s =
  Ret (annotated (converted s e).2 (converted s e).1
         (captured (MaxStackDepth s) 0 callers)).
Proof.
  intros Hd. unfold New, bind, get_MaxStackDepth.
  assert (Hc : forall err s1, MaxStackDepth s1 = MaxStackDepth s ->
    (let! stack := make_uintptr (MaxStackDepth s1) in
     let (length, stack0) :=
       runtime_Callers 2 stack (pc_Callers :: pc_New :: callers) in
     new_CommonError
       {| Err := err; stack := take length stack0; frames := None; prefix := "" |}) s1
    = Ret (annotated s1 err (captured (MaxStackDepth s) 0 callers))).
  { intros err s1 E. unfold bind. rewrite make_uintptr_ok by lia.
    pose proof (runtime_Callers_written 2 (replicate (Z.to_nat (MaxStackDepth s1)) 0)
                  (pc_Callers :: pc_New :: callers)) as W.
    destruct (runtime_Callers 2 _ _) as [n b]. simpl in W.
    unfold new_CommonError, annotated. rewrite W, length_replicate, E.
    reflexivity. }
  unfold bind in Hc.
  destruct e as [|b|d]; unfold fmt_Errorf, errors_New, ret, converted;
    rewrite ?Sprintf_v; cbn [fst snd]; apply Hc; reflexivity.
Qed.


Lemma Wrap_annotated (callers : list uintptr) (p : option addr) (skip : Z) (s : state) :
  Wrap callers (VError (ECommon p)) skip s = Ret (p, s).
Proof. reflexivity. Qed.

Lemma Wrap_eq (callers : list uintptr) (e : value) (skip : Z) (s : state) :
  is_annotated e = false ->
  0 <= MaxStackDepth s ->
  Wrap callers e skip s =
  Ret (annotated (converted s e).2 (converted s e).1
         (captured (MaxStackDepth s) (int_add 2 skip)
            (pc_Callers :: pc_Wrap :: callers))).
Proof.
  intros Ha Hd.
  assert (Hc : forall err s1, MaxStackDepth s1 = MaxStackDepth s ->
    (let! stack := make_uintptr (MaxStackDepth s1) in
     let (length, stack0) :=
       runtime_Callers (int_add 2 skip) stack (pc_Callers :: pc_Wrap :: callers) in
     new_CommonError
       {| Err := err; stack := take length stack0; frames := None; prefix := "" |}) s1
    = Ret (annotated s1 err (captured (MaxStackDepth s) (int_add 2 skip)
            (pc_Callers :: pc_Wrap :: callers)))).
  { intros err s1 E. unfold bind. rewrite make_uintptr_ok by lia.
    pose proof (runtime_Callers_written (int_add 2 skip)
                  (replicate (Z.to_nat (MaxStackDepth s1)) 0)
                  (pc_Callers :: pc_Wrap :: callers)) as W.
    destruct (runtime_Callers _ _ _) as [n b]. simpl in W.
    unfold new_CommonError, annotated, captured.
    rewrite W, length_replicate, E. reflexivity. }
  unfold bind in Hc.
  destruct e as [|b|d]; [| |destruct d; try discriminate Ha];
    unfold Wrap, bind, get_MaxStackDepth, fmt_Errorf, errors_New, ret, converted;
    rewrite ?Sprintf_v; cbn [fst snd]; apply Hc; reflexivity.
Qed.

Lemma Wrap_negative (callers : list uintptr) (e : value) (skip : Z) (s : state) :
  is_annotated e = false ->
  MaxStackDepth s < 0 ->
  Wrap callers e skip s = Panic NegativeLen.
Proof.
  intros Ha Hd.
  destruct e as [|b|d]; [| |destruct d; try discriminate Ha];
    unfold Wrap, bind, get_MaxStackDepth, fmt_Errorf, errors_New, ret;
    cbn [MaxStackDepth set_messages]; now rewrite make_uintptr_negative.
Qed.

Lemma lookup_fresh {A : Type} (l : list A) (x : A) : (l ++ [x]) !! length l = Some x.
Proof. now apply list_lookup_middle. Qed.

Lemma deref_allocated (s : state) (a : addr) (c : CommonError) :
  objects s !! a = Some c -> deref (Some a) s = Ret c.
Proof. intros H. unfold deref. now rewrite H. Qed.

Lemma Error_allocated (fuel : nat) (s : state) (a : addr) (c : CommonError) :
  objects s !! a = Some c ->
  Error (S fuel) s (Some a) =
  (let? msg := error_Error (Error fuel s) s (Err c) in
   Ret (if bool_decide (prefix c = "") then msg else prefix c +:+ ": " +:+ msg)).
Proof.
  intros H. cbn [Error]. rewrite (deref_allocated _ _ _ H). cbn [obind].
  destruct (error_Error _ _ _) as [msg| |]; cbn [obind]; try reflexivity.
  rewrite Sprintf_join.
  destruct (String.eqb_spec (prefix c) ""); cbn [negb];
    [rewrite bool_decide_eq_true_2 | rewrite bool_decide_eq_false_2]; auto.
Qed.

End Properties.

(** ** Construction and unwrapping *)

Section Construction.

Context {rt : Runtime}.

(** C3. Wrapping an annotated error again returns the same pointer and
    leaves the store, hence the captured stack, as it was: for a
    [*CommonError] [p] (nil included) both [Wrap(p, s1)] and
    [Wrap(Wrap(p, s1), s2)] are [p] in the unchanged store; and for any
    value [e], the second [Wrap] adds nothing to what the first did. *)
Theorem Wrap_idempotent (callers1 callers2 : list uintptr) (e : value)
    (p : option addr) (skip1 skip2 : Z) (s : state) :
  Wrap callers1 (VError (ECommon p)) skip1 s = Ret (p, s)
  /\ (let! w := Wrap callers1 (VError (ECommon p)) skip1 in
      Wrap callers2 (VError (ECommon w)) skip2) s = Ret (p, s)
  /\ (let! w := Wrap callers1 e skip1 in
      Wrap callers2 (VError (ECommon w)) skip2) s = Wrap callers1 e skip1 s.
Proof.
  split; [reflexivity | split; [reflexivity |]].
  unfold bind. destruct (Wrap callers1 e skip1 s) as [[w s']| |]; reflexivity.
Qed.


(** C10. On an annotated error, [WrapPrefix] returns the pointer it was
    given and writes the composed prefix into that object: [Err],
    [stack] and [frames] of the object, every other object, the
    [*errorString]s and the frame arrays stay as they were, and no
    object is allocated. *)
Theorem WrapPrefix_in_place (callers : list uintptr) (s : state) (a : addr)
    (c : CommonError) (prefix0 : string) (skip : Z) :
  objects s !! a = Some c ->
  exists s' c',
    WrapPrefix callers (VError (ECommon (Some a))) prefix0 skip s = Ret (Some a, s')
    /\ objects s' !! a = Some c'
    /\ prefix c' = compose_prefix prefix0 (prefix c)
    /\ Err c' = Err c /\ stack c' = stack c /\ frames c' = frames c
    /\ (forall b, b <> a -> objects s' !! b = objects s !! b)
    /\ length (objects s') = length (objects s)
    /\ messages s' = messages s /\ arrays s' = arrays s
    /\ MaxStackDepth s' = MaxStackDepth s.
Proof.
  intros Hc.
  exists (with_prefix s a (compose_prefix prefix0 (prefix c))),
         (set_prefix c (compose_prefix prefix0 (prefix c))).
  assert (Hlt : (a < length (objects s))%nat) by (eapply lookup_lt_Some; eauto).
  split.
  - unfold WrapPrefix, bind, lift. rewrite Wrap_annotated.
    rewrite (deref_allocated _ _ _ Hc). cbn [obind].
    unfold with_prefix, compose_prefix, assign, ret. rewrite Hc, Sprintf_join.
    destruct (String.eqb_spec (prefix c) "") as [E|E]; cbn [negb];
      [rewrite bool_decide_eq_true_2 | rewrite bool_decide_eq_false_2];
      auto; rewrite Hc; reflexivity.
  - unfold with_prefix. rewrite Hc. cbn [objects set_objects messages arrays MaxStackDepth].
    repeat split; try reflexivity.
    + now apply list_lookup_insert_eq.
    + intros b Hb. now apply list_lookup_insert_ne.
    + apply length_insert.
Qed.

End Construction.

(** ** Frames *)

Section Frames.

Context {rt : Runtime}.

Lemma set_arrays_id (s : state) : set_arrays s (arrays s) = s.
Proof. now destruct s. Qed.

Lemma insert_fresh {A : Type} (l : list A) (x y : A) :
  <[length l := y]> (l ++ [x]) = l ++ [y].
Proof.
  rewrite insert_app_r_alt by lia. now rewrite Nat.sub_diag.
Qed.

Lemma range_fill (r : addr) (f : uintptr -> StackFrame) (l : list uintptr) :
  forall (filled rest : list StackFrame) (s : state),
    length rest = length l ->
    arrays s !! r = Some (filled ++ rest) ->
    range (fun i pc => write_array (Some r) i (f pc)) (length filled) l s
    = Ret (tt, set_arrays s (<[r := filled ++ map f l]> (arrays s))).
Proof.
  induction l as [|pc l IH]; intros filled rest s Hlen Hr.
  - destruct rest; [| discriminate Hlen]. cbn [range map ret].
    rewrite list_insert_id by exact Hr. now rewrite set_arrays_id.
  - destruct rest as [|y rest]; [discriminate Hlen |].
    cbn [range]. unfold bind at 1. unfold write_array at 1. rewrite Hr.
    assert (Hlt : (r < length (arrays s))%nat) by (eapply lookup_lt_Some; eauto).
    assert (Hins : <[length filled := f pc]> (filled ++ y :: rest)
                   = (filled ++ [f pc]) ++ rest).
    { rewrite insert_app_r_alt by lia. rewrite Nat.sub_diag. cbn.
      now rewrite <- app_assoc. }
    rewrite Hins.
    replace (S (length filled)) with (length (filled ++ [f pc]))
      by (rewrite length_app; cbn; lia).
    rewrite (IH (filled ++ [f pc]) rest).
    + cbn [arrays set_arrays]. rewrite list_insert_insert_eq.
      replace ((filled ++ [f pc]) ++ map f l) with (filled ++ map f (pc :: l))
        by (cbn [map]; now rewrite <- app_assoc).
      reflexivity.
    + cbn in Hlen. lia.
    + cbn [arrays set_arrays]. now apply list_lookup_insert_eq.
Qed.

Lemma StackFrames_cached (s : state) (a : addr) (c : CommonError) (r : addr) :
  objects s !! a = Some c ->
  frames c = Some r ->
  StackFrames (Some a) s = Ret (Some r, s).
Proof.
  intros Hc Hf. unfold StackFrames, bind, lift.
  rewrite (deref_allocated _ _ _ Hc). cbn [obind]. rewrite Hf.
  unfold ret. rewrite (deref_allocated _ _ _ Hc). cbn [obind]. now rewrite Hf.
Qed.

Lemma StackFrames_fresh (s : state) (a : addr) (c : CommonError) :
  objects s !! a = Some c ->
  frames c = None ->
  StackFrames (Some a) s
  = Ret (Some (length (arrays s)), resolved s a c (map NewStackFrame (stack c))).
Proof.
  intros Hc Hf.
  assert (Hlt : (a < length (objects s))%nat) by (eapply lookup_lt_Some; eauto).
  unfold StackFrames. unfold bind at 1. unfold lift at 1.
  rewrite (deref_allocated _ _ _ Hc). cbn [obind]. rewrite Hf.
  unfold bind at 1. unfold bind at 1. unfold new_array at 1.
  unfold bind at 1. unfold assign at 1. cbn [objects set_arrays]. rewrite Hc.
  rewrite (range_fill _ NewStackFrame (stack c) []
             (replicate (length (stack c)) zero_StackFrame)).
  - unfold bind, lift, deref, ret. cbn [objects set_objects set_arrays arrays].
    rewrite list_lookup_insert_eq by exact Hlt. cbn [obind frames set_frames].
    unfold resolved. cbn [app]. rewrite insert_fresh. reflexivity.
  - apply length_replicate.
  - cbn [arrays set_objects set_arrays app]. apply lookup_fresh.
Qed.

Lemma fold_left_blocks (render : StackFrame -> string) (l : list StackFrame) (buf : string) :
  fold_left (fun b frame => b +:+ render frame) l buf = buf +:+ blocks render l.
Proof.
  revert buf. induction l as [|x l IH]; intros buf; cbn [fold_left blocks].
  - now rewrite append_empty_r.
  - rewrite IH. apply append_assoc.
Qed.

Lemma Stack_fresh (s : state) (a : addr) (c : CommonError) :
  objects s !! a = Some c ->
  frames c = None ->
  Stack (Some a) s
  = Ret (blocks StackFrame_String (map NewStackFrame (stack c)),
         resolved s a c (map NewStackFrame (stack c))).
Proof.
  intros Hc Hf. unfold Stack. unfold bind at 1.
  rewrite (StackFrames_fresh _ _ _ Hc Hf).
  unfold bind, lift, read_array, ret. cbn [arrays resolved].
  rewrite lookup_fresh. cbn [obind]. now rewrite fold_left_blocks.
Qed.


End Frames.

(** ** Messages *)

Section Messages.

Context {rt : Runtime}.

Lemma Error_errorString (fuel : nat) (s : state) (a x : addr) (c : CommonError)
    (m : string) :
  objects s !! a = Some c ->
  Err c = Some (EString x) ->
  messages s !! x = Some m ->
  Error (S fuel) s (Some a)
  = Ret (if bool_decide (prefix c = "") then m else prefix c +:+ ": " +:+ m).
Proof.
  intros Hc He Hm. rewrite (Error_allocated _ _ _ _ Hc), He.
  cbn [error_Error]. now rewrite Hm.
Qed.

Lemma Error_plain (fuel : nat) (s : state) (a x : addr) (c : CommonError)
    (m : string) :
  objects s !! a = Some c ->
  Err c = Some (EString x) ->
  messages s !! x = Some m ->
  prefix c = "" ->
  Error (S fuel) s (Some a) = Ret m.
Proof.
  intros Hc He Hm Hp. rewrite (Error_errorString _ _ _ _ _ _ Hc He Hm).
  now rewrite bool_decide_eq_true_2.
Qed.






End Messages.

(** ** Well-formed stores *)

Lemma wf_objects_lookup (s : state) (l : list CommonError) :
  forall a, wf_objects s a l = true <->
            forall i c, l !! i = Some c -> wf_object s (a + i) c = true.
Proof.
  induction l as [|x l IH]; intros a; cbn [wf_objects].
  - split; [intros _ i c H; discriminate H | reflexivity].
  - rewrite andb_true_iff, IH. split.
    + intros [Hx Hl] [|i] c H; cbn in H.
      * injection H as <-. now rewrite Nat.add_0_r.
      * replace (a + S i)%nat with (S a + i)%nat by lia. now apply Hl.
    + intros H. split.
      * rewrite <- (Nat.add_0_r a). now apply (H 0%nat).
      * intros i c Hi. replace (S a + i)%nat with (a + S i)%nat by lia.
        now apply (H (S i)).
Qed.

Lemma wf_state_lookup (s : state) :
  wf_state s = true <->
  forall a c, objects s !! a = Some c -> wf_object s a c = true.
Proof. unfold wf_state. now rewrite wf_objects_lookup. Qed.


Lemma wf_object_extends (s s' : state) (a : addr) (c : CommonError) :
  extends s s' -> wf_object s a c = true -> wf_object s' a c = true.
Proof.
  intros [Hm Ha]. unfold wf_object. rewrite !andb_true_iff. intros [He Hf]. split.
  - destruct (Err c) as [[x|m|t m|[b|]]|]; try exact He.
    apply bool_decide_eq_true_1 in He. apply bool_decide_eq_true_2. lia.
  - destruct (frames c) as [r|]; [| reflexivity].
    destruct (arrays s !! r) as [l|] eqn:E; [| discriminate Hf].
    destruct (Ha r l E) as (l' & -> & Hl).
    apply bool_decide_eq_true_1 in Hf. apply bool_decide_eq_true_2. congruence.
Qed.




Lemma wf_resolved (s : state) (a : addr) (c : CommonError) (l : list StackFrame) :
  wf_state s = true ->
  objects s !! a = Some c ->
  length l = length (stack c) ->
  wf_state (resolved s a c l) = true.
Proof.
  intros Hs Hc Hl.
  assert (Hext : extends s (resolved s a c l)).
  { split; [cbn; lia |]. intros r l0 H. exists l0. split; [| reflexivity].
    cbn [arrays resolved]. rewrite lookup_app_l; [exact H |].
    eapply lookup_lt_Some; eauto. }
  apply wf_state_lookup. intros b c' Hc'. cbn [objects resolved] in Hc'.
  apply list_lookup_insert_Some in Hc' as [(-> & <- & _) | [_ Hc']].
  - assert (H := proj1 (wf_state_lookup s) Hs _ _ Hc).
    unfold wf_object in *. rewrite andb_true_iff in *. destruct H as [He _].
    cbn [Err frames set_frames stack arrays resolved]. split.
    + destruct (Err c) as [[x|m|t m|[q|]]|]; try exact He.
    + rewrite lookup_fresh. now apply bool_decide_eq_true_2.
  - apply (wf_object_extends s); [exact Hext |]. now apply wf_state_lookup.
Qed.

(** ** Prefixes *)

Section Prefixes.

Context {rt : Runtime}.

(** In a well-formed store [Error()] returns, as soon as the fuel
    exceeds the address of the receiver. *)
Lemma Error_total (s : state) :
  wf_state s = true ->
  forall fuel a c, objects s !! a = Some c -> (a < fuel)%nat ->
  exists msg,
    error_Error (Error (pred fuel) s) s (Err c) = Ret msg
    /\ Error fuel s (Some a)
       = Ret (if bool_decide (prefix c = "") then msg else prefix c +:+ ": " +:+ msg).
Proof.
  intros Hs. induction fuel as [|fuel IH]; intros a c Hc Hlt; [lia |].
  assert (Hw := proj1 (wf_state_lookup s) Hs _ _ Hc).
  unfold wf_object in Hw. apply andb_true_iff in Hw as [He _].
  rewrite (Error_allocated _ _ _ _ Hc). cbn [pred].
  assert (exists msg, error_Error (Error fuel s) s (Err c) = Ret msg) as [msg Hm].
  { destruct (Err c) as [[x|m|t m|[b|]]|]; try discriminate He; cbn [error_Error]; eauto.
    - apply bool_decide_eq_true_1 in He.
      destruct (lookup_lt_is_Some_2 (messages s) x He) as [m ->]. eauto.
    - apply bool_decide_eq_true_1 in He.
      assert (Hb : (b < length (objects s))%nat)
        by (apply lookup_lt_Some in Hc; lia).
      destruct (lookup_lt_is_Some_2 (objects s) b Hb) as [c' Hc'].
      destruct (IH b c' Hc' ltac:(lia)) as (msg & _ & ->). eauto. }
  exists msg. rewrite Hm. split; reflexivity.
Qed.

Lemma WrapPrefix_eq (callers : list uintptr) (e : value) (prefix0 : string)
    (skip : Z) (s s0 : state) (a : addr) (c : CommonError) :
  Wrap (pc_WrapPrefix :: callers) e skip s = Ret (Some a, s0) ->
  objects s0 !! a = Some c ->
  WrapPrefix callers e prefix0 skip s
  = Ret (Some a, with_prefix s0 a (compose_prefix prefix0 (prefix c))).
Proof.
  intros Hw Hc. unfold WrapPrefix. unfold bind at 1. rewrite Hw.
  unfold bind, lift. rewrite (deref_allocated _ _ _ Hc). cbn [obind].
  unfold with_prefix, compose_prefix, assign, ret. rewrite Hc, Sprintf_join.
  destruct (String.eqb_spec (prefix c) "") as [E|E]; cbn [negb];
    [rewrite bool_decide_eq_true_2 | rewrite bool_decide_eq_false_2];
    auto; rewrite Hc; reflexivity.
Qed.


Lemma with_prefix_lookup (s : state) (a : addr) (c : CommonError) (p : string) :
  objects s !! a = Some c ->
  objects (with_prefix s a p) !! a = Some (set_prefix c p).
Proof.
  intros Hc. unfold with_prefix. rewrite Hc. cbn [objects set_objects].
  apply list_lookup_insert_eq. eapply lookup_lt_Some; eauto.
Qed.



End Prefixes.

(** ** Identity *)

Lemma iface_eq_decide (x y : error) :
  comparable x || comparable y = true ->
  iface_eq x y = Ret (bool_decide (x = y)).
Proof.
  intros Hc.
  destruct x as [[a|m|t m|p]|], y as [[b|m'|t' m'|q]|]; cbn [iface_eq];
    try (rewrite bool_decide_eq_false_2 by discriminate; reflexivity);
    try (f_equal; apply bool_decide_ext; split; congruence).
  - destruct (decide (t = t')) as [<-|Hne].
    + rewrite bool_decide_eq_true_2 by reflexivity.
      cbn [comparable] in Hc. rewrite orb_diag in Hc. rewrite Hc.
      f_equal. apply bool_decide_ext. split; congruence.
    + rewrite bool_decide_eq_false_2 by exact Hne.
      rewrite bool_decide_eq_false_2 by congruence. reflexivity.
Qed.

Lemma rank_wf_error (s : state) (e : error) :
  wf_error s e = true -> (rank e <= length (objects s))%nat.
Proof.
  destruct e as [[x|m|t m|[a|]]|]; cbn; try lia.
  intros H. apply bool_decide_eq_true_1 in H. lia.
Qed.

(** Below a well-formed object there is a well-formed value of lower
    rank. *)
Lemma wf_object_Err (s : state) (a : addr) (c : CommonError) :
  wf_state s = true ->
  objects s !! a = Some c ->
  wf_error s (Err c) = true /\ (rank (Err c) <= a)%nat /\ Err c <> None.
Proof.
  intros Hs Hc.
  assert (Hw := proj1 (wf_state_lookup s) Hs _ _ Hc).
  assert (Hlt := lookup_lt_Some _ _ _ Hc).
  unfold wf_object in Hw. apply andb_true_iff in Hw as [He _].
  destruct (Err c) as [[x|m|t m|[b|]]|]; try discriminate He; cbn;
    repeat split; try lia; try exact He; try discriminate.
  - apply bool_decide_eq_true_1 in He. apply bool_decide_eq_true_2. lia.
  - apply bool_decide_eq_true_1 in He. lia.
Qed.

Lemma core_fuel (s : state) :
  wf_state s = true ->
  forall n m e, (rank e <= n)%nat -> (rank e <= m )%nat -> core n s e = core m s e.
Proof.
  intros Hs. induction n as [|n IH]; intros m e Hn Hm.
  - destruct e as [[x|k|t k|[a|]]|]; cbn in Hn; try lia; now destruct m.
  - destruct m as [|m].
    + destruct e as [[x|k|t k|[a|]]|]; cbn in Hm; try lia; reflexivity.
    + destruct e as [[x|k|t k|[a|]]|]; try reflexivity. cbn [core].
      destruct (objects s !! a) as [c|] eqn:Hc; [| reflexivity].
      destruct (wf_object_Err s a c Hs Hc) as (_ & Hr & _).
      cbn in Hn, Hm. apply IH; lia.
Qed.

Lemma innermost_rank (s : state) (e : error) :
  wf_state s = true -> wf_error s e = true ->
  innermost s e = core (rank e) s e.
Proof.
  intros Hs He. unfold innermost. apply core_fuel; [exact Hs | | lia].
  now apply rank_wf_error.
Qed.

Lemma innermost_step (s : state) (a : addr) (c : CommonError) :
  wf_state s = true ->
  objects s !! a = Some c ->
  innermost s (Some (ECommon (Some a))) = innermost s (Err c).
Proof.
  intros Hs Hc.
  destruct (wf_object_Err s a c Hs Hc) as (He & Hr & _).
  assert (Hlt := lookup_lt_Some _ _ _ Hc).
  rewrite innermost_rank; [| exact Hs | cbn; now apply bool_decide_eq_true_2].
  cbn [rank core]. rewrite Hc.
  rewrite (innermost_rank s (Err c) Hs He). apply core_fuel; [exact Hs | lia | lia].
Qed.

Lemma innermost_plain (s : state) (e : error) :
  is_annotated (of_error e) = false -> innermost s e = e.
Proof.
  unfold innermost. intros H.
  destruct e as [[x|k|t k|p]|]; try discriminate H; now destruct (length (objects s)).
Qed.


Section Identity.

Context {rt : Runtime}.

Lemma Is_spec (s : state) :
  wf_state s = true ->
  forall fuel e original,
    wf_error s e = true ->
    wf_error s original = true ->
    comparable (innermost s e) || comparable (innermost s original) = true ->
    (rank e + rank original < fuel)%nat ->
    Is fuel s e original = Ret (bool_decide (innermost s e = innermost s original)).
Proof.
  intros Hs. induction fuel as [|fuel IH]; intros e o He Ho Hcmp Hfuel; [lia |].
  cbn [Is].
  assert (Heq : iface_eq e o = Ret (bool_decide (e = o))).
  { apply iface_eq_decide.
    destruct e as [[x|k|t k|p]|]; try reflexivity;
      destruct o as [[y|k'|t' k'|q]|]; try (apply orb_true_r);
      rewrite !innermost_plain in Hcmp by reflexivity; exact Hcmp. }
  rewrite Heq. cbn [obind].
  destruct (decide (e = o)) as [->|Hne].
  { rewrite bool_decide_eq_true_2 by reflexivity.
    now rewrite bool_decide_eq_true_2. }
  rewrite bool_decide_eq_false_2 by exact Hne.
  assert (Hleft : forall a, e = Some (ECommon (Some a)) ->
            (let? c := deref (Some a) s in Is fuel s (Err c) o)
            = Ret (bool_decide (innermost s e = innermost s o))).
  { intros a ->. cbn in He. apply bool_decide_eq_true_1 in He.
    destruct (lookup_lt_is_Some_2 (objects s) a He) as [c Hc].
    rewrite (deref_allocated _ _ _ Hc). cbn [obind].
    destruct (wf_object_Err s a c Hs Hc) as (Hwe & Hr & _).
    rewrite (innermost_step s a c Hs Hc) in *.
    apply IH; auto. cbn [rank] in Hfuel. lia. }
  assert (Hright : forall q, is_annotated (of_error e) = false ->
            o = Some (ECommon (Some q)) ->
            (let? c := deref (Some q) s in Is fuel s e (Err c))
            = Ret (bool_decide (innermost s e = innermost s o))).
  { intros q Hpl ->. cbn in Ho. apply bool_decide_eq_true_1 in Ho.
    destruct (lookup_lt_is_Some_2 (objects s) q Ho) as [c Hc].
    rewrite (deref_allocated _ _ _ Hc). cbn [obind].
    destruct (wf_object_Err s q c Hs Hc) as (Hwe & Hr & _).
    rewrite (innermost_step s q c Hs Hc) in *.
    apply IH; auto. cbn [rank] in Hfuel. lia. }
  assert (Hstop : is_annotated (of_error e) = false ->
            is_annotated (of_error o) = false ->
            Ret false = Ret (bool_decide (innermost s e = innermost s o)) :> outcome bool).
  { intros H1 H2. rewrite !innermost_plain by assumption.
    now rewrite bool_decide_eq_false_2. }
  destruct e as [[x|k|t k|[a|]]|]; try discriminate He;
    try (apply (Hleft a); reflexivity);
    destruct o as [[y|k'|t' k'|[q|]]|]; try discriminate Ho;
    try (apply (Hright q); reflexivity);
    apply Hstop; reflexivity.
Qed.

End Identity.



Section Comparison.

Context {rt : Runtime}.



End Comparison.


(** ** The cache of resolved frames *)



(** [StackFrames] on an allocated object of a well-formed store:
    the slice it returns has one frame per captured address, it is the
    slice cached in the object, and the store it leaves is one in which
    a further call, with any symbol table, changes nothing. *)
Lemma StackFrames_wf (rt1 rt2 : Runtime) (s : state) (a : addr) (c : CommonError) :
  wf_state s = true ->
  objects s !! a = Some c ->
  exists r s' l,
    StackFrames (rt := rt1) (Some a) s = Ret (Some r, s')
    /\ arrays s' !! r = Some l
    /\ length l = length (stack c)
    /\ (frames c = None -> l = map (NewStackFrame (rt := rt1)) (stack c))
    /\ objects s' !! a = Some (set_frames c (Some r))
    /\ StackFrames (rt := rt2) (Some a) s' = Ret (Some r, s')
    /\ wf_state s' = true.
Proof.
  intros Hs Hc. destruct (frames c) as [r|] eqn:Hf.
  - assert (Hw := proj1 (wf_state_lookup s) Hs _ _ Hc).
    unfold wf_object in Hw. apply andb_true_iff in Hw as [_ Hw]. rewrite Hf in Hw.
    destruct (arrays s !! r) as [l|] eqn:Hl; [| discriminate Hw].
    apply bool_decide_eq_true_1 in Hw.
    exists r, s, l. rewrite !(StackFrames_cached s a c r Hc Hf).
    repeat split; auto; [discriminate |].
    rewrite Hc. f_equal. destruct c; cbn in *. now subst.
  - exists (length (arrays s)), (resolved s a c (map (NewStackFrame (rt := rt1)) (stack c))),
           (map (NewStackFrame (rt := rt1)) (stack c)).
    assert (Hlt := lookup_lt_Some _ _ _ Hc).
    assert (Hc' : objects (resolved s a c (map (NewStackFrame (rt := rt1)) (stack c))) !! a
                  = Some (set_frames c (Some (length (arrays s)))))
      by (cbn [objects resolved]; now apply list_lookup_insert_eq).
    split; [now apply StackFrames_fresh |].
    split; [cbn [arrays resolved]; apply lookup_fresh |].
    split; [apply length_map |]. split; [reflexivity |]. split; [exact Hc' |].
    split; [eapply StackFrames_cached; [exact Hc' | reflexivity] |].
    apply wf_resolved; auto. apply length_map.
Qed.


(** ** Totality *)


Section Totality.

Context {rt : Runtime}.




Lemma TypeName_wf (s : state) (a : addr) (c : CommonError) :
  wf_state s = true ->
  objects s !! a = Some c ->
  exists t, TypeName s (Some a) = Ret t.
Proof.
  intros Hs Hc. destruct (wf_object_Err s a c Hs Hc) as (_ & _ & Hn).
  unfold TypeName. rewrite (deref_allocated _ _ _ Hc). cbn [obind].
  destruct (Err c) as [[x|m|t m|q]|]; cbn; eauto. contradiction.
Qed.


End Totality.


(** ** The library at work *)

Example Sprintf_step : Sprintf "failed at step %d" [Some (BInt 3)] = "failed at step 3".
Proof. reflexivity. Qed.

Example Sprintf_wrong_operand :
  Sprintf "%d of %s" [Some (BString "x")] = "%!d(string=x) of %!s(MISSING)".
Proof. reflexivity. Qed.

Example Sprintf_extra_operand :
  Sprintf "done" [Some (BInt (-4)); None] = "done%!(EXTRA int=-4, <nil>)".
Proof. reflexivity. Qed.

Example wrap_int_overflow : int_add 2 (2 ^ 63 - 1) = - 2 ^ 63 + 1.
Proof. reflexivity. Qed.

Example New_boom_ErrorStack :
  exists s',
    (let! p := New (rt := sample_runtime) sample_callers (VBasic (BString "boom")) in
     ErrorStack (rt := sample_runtime) 1 p) initial
    = Ret ("boom" +:+ nl +:+
           "main.main" +:+ nl +:+ tab +:+ "/src/main.go:12" +:+ nl +:+
           "unknown.unknown" +:+ nl +:+ tab +:+ "unknown:unknown" +:+ nl, s').
Proof. eexists. vm_compute. reflexivity. Qed.

Example New_nil_message :
  exists s',
    (let! p := New (rt := sample_runtime) sample_callers VNil in
     lift (fun s => Error 1 s p)) initial = Ret ("<nil>", s').
Proof. eexists. vm_compute. reflexivity. Qed.

Example Wrap_negative_skip :
  exists s',
    Wrap (rt := sample_runtime) sample_callers VNil (-1) (set_MaxStackDepth initial 2)
    = Ret (Some 0%nat, s')
    /\ (stack <$> objects s' !! 0%nat) = Some [4128; 8192].
Proof. eexists. split; reflexivity. Qed.

Example WrapPrefix_twice :
  exists s',
    (let! p := WrapPrefix (rt := sample_runtime) sample_callers (VBasic (BInt 3)) "A" 0 in
     let! q := WrapPrefix (rt := sample_runtime) sample_callers (VError (ECommon p)) "B" 0 in
     lift (fun s => Error 2 s q)) initial = Ret ("B: A: 3", s').
Proof. eexists. vm_compute. reflexivity. Qed.

Example Is_twins :
  Is 4 twin_state (Some (ECommon (Some 0%nat))) (Some (EString 0%nat)) = Ret true
  /\ Is 4 twin_state (Some (ECommon (Some 0%nat))) (Some (EString 1%nat)) = Ret false
  /\ Is 4 twin_state (Some (EString 0%nat)) (Some (EString 1%nat)) = Ret false.
Proof. repeat split. Qed.

Example Error_cycle (fuel : nat) :
  Error fuel
    {| MaxStackDepth := 50; messages := [];
       objects := [ {| Err := Some (ECommon (Some 0%nat)); stack := [];
                       frames := None; prefix := "" |} ];
       arrays := [] |} (Some 0%nat) = OutOfFuel.
Proof. induction fuel as [|fuel IH]; [reflexivity |]. cbn. now rewrite IH. Qed.

Lemma wf_initial : wf_state initial = true.
Proof. reflexivity. Qed.

Lemma wf_set_MaxStackDepth (s : state) (n : Z) :
  wf_state s = true -> wf_state (set_MaxStackDepth s n) = true.
Proof.
  intros Hs. apply wf_state_lookup. intros a c Hc.
  apply (wf_object_extends s); [split; [cbn; lia | intros r l H; now exists l] |].
  now apply wf_state_lookup.
Qed.

(** ** The properties at sample inputs *)









Lemma WrapPrefix_in_place_witness :
  exists s' c',
    WrapPrefix (rt := sample_runtime) sample_callers (VError (ECommon (Some 0%nat)))
      "read" 0 sample_state = Ret (Some 0%nat, s')
    /\ objects s' !! 0%nat = Some c'
    /\ prefix c' = compose_prefix "read" "".
Proof.
  destruct (WrapPrefix_in_place (rt := sample_runtime) sample_callers sample_state 0%nat
              {| Err := Some (EString 0%nat); stack := [8192; 8200];
                 frames := None; prefix := "" |} "read" 0 eq_refl)
    as (s' & c' & H1 & H2 & H3 & _).
  exists s', c'. repeat split; assumption.
Defined.

(** ** Further properties of the constructors *)

Section Constructors.

Context {rt : Runtime}.

Lemma New_negative (callers : list uintptr) (e : value) (s : state) :
  MaxStackDepth s < 0 -> New callers e s = Panic NegativeLen.
Proof.
  intros Hd.
  destruct e as [|b|d];
    unfold New, bind, get_MaxStackDepth, fmt_Errorf, errors_New, ret;
    cbn [MaxStackDepth set_messages]; now rewrite make_uintptr_negative.
Qed.

(** X1. On a value that is not an annotated error, [New(e)] and
    [Wrap(e, 0)] do the same: the same outcome, the same new object
    and the same store. *)
Theorem New_is_Wrap_zero (callers : list uintptr) (e : value) (s : state) :
  is_annotated e = false ->
  New callers e s = Wrap callers e 0 s.
Proof.
  intros Ha. destruct (Z.lt_ge_cases (MaxStackDepth s) 0) as [Hn|Hd].
  - rewrite New_negative, Wrap_negative by assumption. reflexivity.
  - rewrite New_eq, Wrap_eq by assumption. reflexivity.
Qed.






(** X6. When [MaxStackDepth] is negative, [New] panics on every value
    and [Wrap], [WrapPrefix] and [Errorf] panic on every value that is
    not an annotated error; [Wrap] still returns an annotated error
    as it is. *)
Theorem negative_depth_panics (callers : list uintptr) (e : value)
    (p : option addr) (prefix0 format : string) (args : list operand)
    (skip : Z) (s : state) :
  MaxStackDepth s < 0 ->
  is_annotated e = false ->
  New callers e s = Panic NegativeLen
  /\ New callers (VError (ECommon p)) s = Panic NegativeLen
  /\ Wrap callers e skip s = Panic NegativeLen
  /\ WrapPrefix callers e prefix0 skip s = Panic NegativeLen
  /\ Errorf callers format args s = Panic NegativeLen
  /\ Wrap callers (VError (ECommon p)) skip s = Ret (p, s).
Proof.
  intros Hd Ha. repeat split.
  - now apply New_negative.
  - now apply New_negative.
  - now apply Wrap_negative.
  - unfold WrapPrefix, bind. now rewrite Wrap_negative.
  - unfold Errorf, bind, fmt_Errorf, errors_New. cbn [of_error].
    now rewrite Wrap_negative.
Qed.

End Constructors.

(** ** Further properties of [Is] and [Unwrap] *)

Lemma core_not_nil (s : state) :
  wf_state s = true ->
  forall n e, e <> None -> core n s e <> None.
Proof.
  intros Hs. induction n as [|n IH]; intros e He; [exact He |].
  destruct e as [[x|k|t k|[a|]]|]; try exact He. cbn [core].
  destruct (objects s !! a) as [c|] eqn:Hc; [| exact He].
  apply IH. now destruct (wf_object_Err s a c Hs Hc).
Qed.

Lemma Is_same_Err (s s' : state) :
  same_Err s s' ->
  forall fuel e original, Is fuel s' e original = Is fuel s e original.
Proof.
  intros Hsame.
  assert (Hd : forall p (k : error -> outcome bool),
            (let? c := deref p s' in k (Err c)) = (let? c := deref p s in k (Err c))).
  { intros [a|] k; [| reflexivity]. unfold deref. specialize (Hsame a).
    destruct (objects s' !! a) as [c'|], (objects s !! a) as [c|];
      cbn in Hsame; try discriminate Hsame; [| reflexivity].
    injection Hsame as Hsame. cbn [obind]. now rewrite Hsame. }
  induction fuel as [|fuel IH]; intros e o; [reflexivity |]. cbn [Is].
  destruct (iface_eq e o) as [[|]| |]; cbn [obind]; try reflexivity.
  destruct e as [[x|k|t k|p]|];
    try (destruct o as [[y|k'|t' k'|q]|]; try reflexivity;
         rewrite (Hd q (fun e' => Is fuel s' _ e'));
         destruct (deref q s); cbn [obind]; auto).
  rewrite (Hd p (fun e' => Is fuel s' e' o)).
  destruct (deref p s); cbn [obind]; auto.
Qed.

Lemma set_objects_id (s : state) : set_objects s (objects s) = s.
Proof. now destruct s. Qed.

Lemma same_Err_with_prefix (s : state) (a : addr) (p : string) :
  same_Err s (with_prefix s a p).
Proof.
  intros b. unfold with_prefix. destruct (objects s !! a) as [c|] eqn:Hc; [| reflexivity].
  cbn [objects set_objects]. destruct (decide (a = b)) as [<-|Hne].
  - rewrite list_lookup_insert_eq by (eapply lookup_lt_Some; eauto). now rewrite Hc.
  - now rewrite list_lookup_insert_ne.
Qed.

Lemma same_Err_resolved (s : state) (a : addr) (c : CommonError) (l : list StackFrame) :
  objects s !! a = Some c ->
  same_Err s (resolved s a c l).
Proof.
  intros Hc b. cbn [objects resolved]. destruct (decide (a = b)) as [<-|Hne].
  - rewrite list_lookup_insert_eq by (eapply lookup_lt_Some; eauto). now rewrite Hc.
  - now rewrite list_lookup_insert_ne.
Qed.

Section Relations.

Context {rt : Runtime}.

Lemma StackFrames_cases (s : state) (a : addr) (c : CommonError) :
  objects s !! a = Some c ->
  (exists r, frames c = Some r /\ StackFrames (Some a) s = Ret (Some r, s))
  \/ (frames c = None
      /\ StackFrames (Some a) s
         = Ret (Some (length (arrays s)),
                resolved s a c (map NewStackFrame (stack c)))).
Proof.
  intros Hc. destruct (frames c) as [r|] eqn:Hf.
  - left. exists r. split; [reflexivity |]. exact (StackFrames_cached s a c r Hc Hf).
  - right. split; [reflexivity |]. exact (StackFrames_fresh s a c Hc Hf).
Qed.

(** X7. In a well-formed store [Is] is symmetric, although the code
    unwraps its first argument before its second. *)
Theorem Is_symmetric (s : state) (e original : error) (fuel : nat) :
  wf_state s = true ->
  wf_error s e = true ->
  wf_error s original = true ->
  comparable (innermost s e) || comparable (innermost s original) = true ->
  (rank e + rank original < fuel)%nat ->
  Is fuel s e original = Is fuel s original e.
Proof.
  intros Hs He Ho Hcmp Hfuel.
  rewrite (Is_spec s Hs fuel e original He Ho Hcmp Hfuel).
  rewrite (Is_spec s Hs fuel original e Ho He); [| now rewrite orb_comm | lia].
  f_equal. apply bool_decide_ext. split; congruence.
Qed.

(** X8. In a well-formed store [Is] is transitive. *)
Theorem Is_transitive (s : state) (e1 e2 e3 : error) (fuel : nat) :
  wf_state s = true ->
  wf_error s e1 = true ->
  wf_error s e2 = true ->
  wf_error s e3 = true ->
  comparable (innermost s e2) = true ->
  (rank e1 + rank e2 + rank e3 < fuel)%nat ->
  Is fuel s e1 e2 = Ret true ->
  Is fuel s e2 e3 = Ret true ->
  Is fuel s e1 e3 = Ret true.
Proof.
  intros Hs H1 H2 H3 Hcmp Hfuel H12 H23.
  rewrite (Is_spec s Hs fuel e1 e2 H1 H2) in H12;
    [| rewrite Hcmp; apply orb_true_r | lia].
  rewrite (Is_spec s Hs fuel e2 e3 H2 H3) in H23; [| now rewrite Hcmp | lia].
  injection H12 as H12. injection H23 as H23.
  apply bool_decide_eq_true_1 in H12, H23.
  rewrite (Is_spec s Hs fuel e1 e3 H1 H3); [| rewrite H12, Hcmp; reflexivity | lia].
  f_equal. apply bool_decide_eq_true_2. congruence.
Qed.


(** X10. In a well-formed store the nil error [Is] only the nil error:
    [Is(nil, e)] and [Is(e, nil)] are true exactly when [e] is nil. *)
Theorem Is_nil (s : state) (e : error) (fuel : nat) :
  wf_state s = true ->
  wf_error s e = true ->
  (rank e < fuel)%nat ->
  Is fuel s None e = Ret (bool_decide (e = None))
  /\ Is fuel s e None = Ret (bool_decide (e = None)).
Proof.
  intros Hs He Hfuel.
  assert (Hn : innermost s None = None) by now apply innermost_plain.
  assert (Hiff : innermost s e = None <-> e = None).
  { split; [| intros ->; exact Hn].
    intros H. destruct e as [d|]; [| reflexivity].
    exfalso. revert H. now apply core_not_nil. }
  split.
  - rewrite (Is_spec s Hs fuel None e eq_refl He); [| now rewrite Hn | cbn [rank]; lia].
    f_equal. apply bool_decide_ext. rewrite Hn. split; intros H.
    + now apply Hiff.
    + symmetry. now apply Hiff.
  - rewrite (Is_spec s Hs fuel e None He eq_refl);
      [| rewrite Hn; apply orb_true_r | cbn [rank]; lia].
    f_equal. apply bool_decide_ext. rewrite Hn. exact Hiff.
Qed.

(** X11. [Is] looks at the [Err] fields only: after [WrapPrefix] has
    changed the prefix of an annotated error, or [StackFrames] has
    cached its frames, [Is] gives on any two errors what it gave
    before, a panic included. *)
Theorem Is_ignores_prefix_and_frames (callers : list uintptr) (s : state) (a : addr)
    (c : CommonError) (prefix0 : string) (skip : Z) :
  objects s !! a = Some c ->
  (exists s1,
     WrapPrefix callers (VError (ECommon (Some a))) prefix0 skip s = Ret (Some a, s1)
     /\ forall fuel e original, Is fuel s1 e original = Is fuel s e original)
  /\ (exists r s2,
        StackFrames (Some a) s = Ret (r, s2)
        /\ forall fuel e original, Is fuel s2 e original = Is fuel s e original).
Proof.
  intros Hc. split.
  - exists (with_prefix s a (compose_prefix prefix0 (prefix c))). split.
    + apply (WrapPrefix_eq _ _ _ _ _ s a c); [apply Wrap_annotated | exact Hc].
    + apply Is_same_Err, same_Err_with_prefix.
  - destruct (StackFrames_cases s a c Hc) as [(r & _ & H) | [_ H]].
    + exists (Some r), s. split; [exact H | reflexivity].
    + eexists _, _. split; [exact H |]. now apply Is_same_Err, same_Err_resolved.
Qed.

(** X12. In a well-formed store [Unwrap] never returns the nil error:
    not for an annotated error, whose [Err] is not nil, and not for the
    nil error itself, for which it makes a new error with the text
    "<nil>". *)
Theorem Unwrap_never_nil (s : state) (e : error) :
  wf_state s = true ->
  wf_error s e = true ->
  (exists d s', Unwrap e s = Ret (Some d, s'))
  /\ (exists x s',
        Unwrap None s = Ret (Some (EString x), s')
        /\ messages s' !! x = Some "<nil>"
        /\ objects s' = objects s).
Proof.
  intros Hs He. split.
  - destruct e as [[x|m|t m|[a|]]|]; try discriminate He;
      try (eexists _, _; reflexivity).
    cbn in He. apply bool_decide_eq_true_1 in He.
    destruct (lookup_lt_is_Some_2 (objects s) a He) as [c Hc].
    destruct (wf_object_Err s a c Hs Hc) as (_ & _ & Hn).
    unfold Unwrap, bind, lift. rewrite (deref_allocated _ _ _ Hc). cbn [obind ret].
    destruct (Err c) as [d|]; [| contradiction]. now exists d, s.
  - eexists _, _. split; [reflexivity |]. split; [| reflexivity].
    cbn [messages set_messages]. apply lookup_fresh.
Qed.


(** X14. [WrapPrefix] with the empty prefix: on an annotated error
    without prefix the store is left as it was; on one with a prefix
    the new prefix is ": " followed by the old one. *)
Theorem WrapPrefix_empty_prefix (callers : list uintptr) (s : state) (a : addr)
    (c : CommonError) (skip : Z) :
  objects s !! a = Some c ->
  exists s',
    WrapPrefix callers (VError (ECommon (Some a))) "" skip s = Ret (Some a, s')
    /\ (prefix c = "" -> s' = s)
    /\ (prefix c <> "" ->
        objects s' !! a = Some (set_prefix c (": " +:+ prefix c))).
Proof.
  intros Hc. exists (with_prefix s a (compose_prefix "" (prefix c))). split; [| split].
  - apply (WrapPrefix_eq _ _ _ _ _ s a c); [apply Wrap_annotated | exact Hc].
  - intros Hp. unfold compose_prefix, with_prefix.
    rewrite bool_decide_eq_true_2 by exact Hp. rewrite Hc.
    replace (set_prefix c "") with c by (destruct c; cbn in *; now subst).
    rewrite list_insert_id by exact Hc. apply set_objects_id.
  - intros Hp. unfold compose_prefix.
    rewrite bool_decide_eq_false_2 by exact Hp. now apply with_prefix_lookup.
Qed.

End Relations.

(** ** Further properties of the rendering *)

Section Rendering.

Context {rt : Runtime}.

(** [Error()] reads the [Err] and [prefix] fields and the
    [*errorString]s: a message rendered in a store is rendered in any
    store that keeps them. *)
Lemma Error_extends (s s' : state) :
  (forall x m, messages s !! x = Some m -> messages s' !! x = Some m) ->
  (forall a c, objects s !! a = Some c ->
     exists c', objects s' !! a = Some c' /\ Err c' = Err c /\ prefix c' = prefix c) ->
  forall fuel p m, Error fuel s p = Ret m -> Error fuel s' p = Ret m.
Proof.
  intros Hm Ho. induction fuel as [|fuel IH]; intros p m H; [discriminate H |].
  destruct p as [a|]; [| discriminate H].
  destruct (objects s !! a) as [c|] eqn:Hc;
    [| cbn [Error] in H; unfold deref in H; rewrite Hc in H; discriminate H].
  destruct (Ho a c Hc) as (c' & Hc' & HE & HP).
  rewrite (Error_allocated _ _ _ _ Hc) in H.
  rewrite (Error_allocated _ _ _ _ Hc'), HE, HP.
  destruct (error_Error (Error fuel s) s (Err c)) as [msg| |] eqn:Hmsg;
    try discriminate H.
  assert (Hmsg' : error_Error (Error fuel s') s' (Err c) = Ret msg).
  { destruct (Err c) as [[x|k|t k|q]|]; cbn [error_Error] in *; auto.
    destruct (messages s !! x) as [m0|] eqn:Hx; [| discriminate Hmsg].
    now rewrite (Hm x m0 Hx). }
  now rewrite Hmsg'.
Qed.

Lemma StackFrames_keeps_text (s s' : state) (a : addr) (c : CommonError)
    (r : option addr) :
  objects s !! a = Some c ->
  StackFrames (Some a) s = Ret (r, s') ->
  messages s' = messages s
  /\ forall b c0, objects s !! b = Some c0 ->
       exists c', objects s' !! b = Some c' /\ Err c' = Err c0 /\ prefix c' = prefix c0.
Proof.
  intros Hc H.
  destruct (StackFrames_cases s a c Hc) as [(r0 & _ & H0) | [_ H0]];
    rewrite H0 in H; injection H as <- <-.
  - split; [reflexivity |]. intros b c0 Hb. now exists c0.
  - split; [reflexivity |]. intros b c0 Hb. cbn [objects resolved].
    destruct (decide (a = b)) as [<-|Hne].
    + rewrite list_lookup_insert_eq by (eapply lookup_lt_Some; eauto).
      rewrite Hc in Hb. injection Hb as <-. now eexists.
    + rewrite list_lookup_insert_ne by exact Hne. now exists c0.
Qed.

(** X16. In a well-formed store [TypeErrorStack()] returns, and it is
    [TypeName()], a space and what [ErrorStack()] returns, with the
    store [ErrorStack()] leaves. *)
Theorem TypeErrorStack_is_TypeName_ErrorStack (s : state) (a : addr)
    (c : CommonError) (fuel : nat) :
  wf_state s = true ->
  objects s !! a = Some c ->
  (a < fuel)%nat ->
  exists t m s',
    TypeName s (Some a) = Ret t
    /\ ErrorStack fuel (Some a) s = Ret (m, s')
    /\ TypeErrorStack fuel (Some a) s = Ret (t +:+ " " +:+ m, s').
Proof.
  intros Hs Hc Hlt.
  destruct (TypeName_wf s a c Hs Hc) as [t Ht].
  destruct (Error_total s Hs fuel a c Hc Hlt) as (msg & _ & HE).
  destruct (StackFrames_wf rt rt s a c Hs Hc)
    as (r & s' & l & H1 & H2 & _ & _ & _ & _ & _).
  eexists t, _, s'. split; [exact Ht |].
  assert (HS : ErrorStack fuel (Some a) s
               = Ret ((if bool_decide (prefix c = "") then msg
                       else prefix c +:+ ": " +:+ msg) +:+ nl +:+
                      fold_left (fun buf frame => buf +:+ StackFrame_String frame) l "",
                      s')).
  { unfold ErrorStack, Stack, bind, lift. rewrite HE. cbn [obind]. rewrite H1.
    unfold read_array. rewrite H2. reflexivity. }
  split; [exact HS |].
  unfold TypeErrorStack, Stack, bind, lift. rewrite Ht. cbn [obind].
  rewrite HE. cbn [obind]. rewrite H1. unfold read_array. rewrite H2.
  reflexivity.
Qed.


(** X19. With [MaxStackDepth] 0 nothing is captured: the error [New]
    makes of a value that holds no error has an empty stack,
    [StackFrames()] caches an empty slice that is not nil, and
    [ErrorStack()] is the message followed by a newline. *)
Theorem zero_depth_captures_nothing (callers : list uintptr) (s : state)
    (v : value) (fuel : nat) :
  MaxStackDepth s = 0 ->
  is_error v = false ->
  exists p s' c,
    New callers v s = Ret (Some p, s')
    /\ objects s' !! p = Some c
    /\ stack c = []
    /\ (exists r s'',
          StackFrames (Some p) s' = Ret (Some r, s'')
          /\ arrays s'' !! r = Some [])
    /\ exists s'',
         ErrorStack (S fuel) (Some p) s'
         = Ret (format_v (default_operand v) +:+ nl, s'').
Proof.
  intros Hd Hv. rewrite New_eq by lia. unfold annotated. rewrite Hd.
  change (captured 0 0 callers) with (@nil Z).
  destruct v as [|b|d]; [| |discriminate Hv];
    cbn [converted fst snd default_operand].
  all: eexists _, _, _; split; [reflexivity |].
  all: cbn [objects set_objects set_messages].
  all: split; [apply lookup_fresh |]; split; [reflexivity |].
  all: split;
    [ eexists _, _; split;
        [ apply StackFrames_fresh; [apply lookup_fresh | reflexivity]
        | cbn [arrays resolved stack map]; apply lookup_fresh ]
    | ].
  all: eexists; unfold ErrorStack, bind, lift.
  all: erewrite Error_plain;
         [ | apply lookup_fresh | reflexivity | apply lookup_fresh | reflexivity ].
  all: cbn [obind].
  all: erewrite Stack_fresh; [| apply lookup_fresh | reflexivity].
  all: cbn [stack map blocks ret]; now rewrite append_empty_r.
Qed.

End Rendering.

(** X15. [ErrorStack()] can be repeated: in a well-formed store a
    second call returns the text of the first and leaves the store of
    the first, whatever the symbol table says by then; and [Error()]
    is what it was before the frames were resolved. *)
Theorem ErrorStack_repeatable (rt1 rt2 : Runtime) (s : state) (a : addr)
    (c : CommonError) (fuel : nat) :
  wf_state s = true ->
  objects s !! a = Some c ->
  (a < fuel)%nat ->
  exists m s',
    ErrorStack (rt := rt1) fuel (Some a) s = Ret (m, s')
    /\ ErrorStack (rt := rt2) fuel (Some a) s' = Ret (m, s')
    /\ Error fuel s' (Some a) = Error fuel s (Some a).
Proof.
  intros Hs Hc Hlt.
  destruct (Error_total s Hs fuel a c Hc Hlt) as (msg & _ & HE).
  destruct (StackFrames_wf rt1 rt2 s a c Hs Hc)
    as (r & s' & l & H1 & H2 & _ & _ & _ & H6 & _).
  destruct (StackFrames_keeps_text (rt := rt1) s s' a c (Some r) Hc H1) as [Hm Ho].
  assert (HE' : Error fuel s' (Some a) = Error fuel s (Some a)).
  { rewrite HE. apply (Error_extends s s'); [now rewrite Hm | exact Ho | exact HE]. }
  eexists _, s'. split; [| split; [| exact HE']].
  - unfold ErrorStack, Stack, bind, lift. rewrite HE. cbn [obind]. rewrite H1.
    unfold read_array. rewrite H2. reflexivity.
  - unfold ErrorStack, Stack, bind, lift. rewrite HE', HE. cbn [obind]. rewrite H6.
    unfold read_array. rewrite H2. reflexivity.
Qed.

(** ** recover.go *)

(** X17. [Recover()] returns the formatted stack trace of the
    goroutine cut at 65536 bytes: the whole trace when it is shorter,
    its first 65536 bytes otherwise. *)
Theorem Recover_truncates (trace : list Byte.byte) :
  Recover trace = take (Z.to_nat 65536) trace
  /\ length (Recover trace) = Nat.min (Z.to_nat 65536) (length trace)
  /\ exists rest, trace = Recover trace ++ rest.
Proof.
  assert (H : Recover trace = take (Z.to_nat 65536) trace).
  { unfold Recover, runtime_Stack. change (Z.shiftl 1 16) with 65536.
    rewrite take_app_length. now rewrite length_replicate. }
  rewrite H. split; [reflexivity |]. split; [apply length_take |].
  exists (drop (Z.to_nat 65536) trace). symmetry. apply take_drop.
Qed.

Section Trace.

Context {rt : Runtime}.

(** X20. [Stack()] is the concatenation of the rendered frames, one
    per captured address and in the order of capture; when the frames
    are cached already it renders the cached ones, resolves nothing
    and leaves the store as it is. *)
Theorem Stack_in_capture_order (s : state) (a : addr) (c : CommonError) :
  objects s !! a = Some c ->
  (frames c = None ->
   exists s',
     Stack (Some a) s
     = Ret (blocks StackFrame_String (map NewStackFrame (stack c)), s')
     /\ objects s' !! a = Some (set_frames c (Some (length (arrays s))))
     /\ arrays s' = arrays s ++ [map NewStackFrame (stack c)])
  /\ (forall r l, frames c = Some r -> arrays s !! r = Some l ->
      Stack (Some a) s = Ret (blocks StackFrame_String l, s)).
Proof.
  intros Hc. split.
  - intros Hf. eexists. split; [now apply Stack_fresh |]. split; [| reflexivity].
    cbn [objects resolved]. apply list_lookup_insert_eq. eapply lookup_lt_Some; eauto.
  - intros r l Hf Hl. unfold Stack, bind.
    rewrite (StackFrames_cached s a c r Hc Hf). unfold lift, read_array. rewrite Hl.
    cbn [obind ret]. now rewrite fold_left_blocks.
Qed.

End Trace.

Lemma Stack_in_capture_order_witness :
  exists s',
    Stack (rt := sample_runtime) (Some 0%nat) sample_state
    = Ret (blocks (StackFrame_String)
             (map (NewStackFrame (rt := sample_runtime)) [8192; 8200]), s').
Proof.
  destruct (proj1 (Stack_in_capture_order (rt := sample_runtime) sample_state 0%nat
                     sample_object eq_refl) eq_refl) as (s' & H & _).
  exists s'. exact H.
Defined.

(** ** The further properties at sample inputs *)

Lemma New_is_Wrap_zero_witness :
  New (rt := sample_runtime) sample_callers (VBasic (BInt 7)) initial
  = Wrap (rt := sample_runtime) sample_callers (VBasic (BInt 7)) 0 initial.
Proof.
  exact (New_is_Wrap_zero (rt := sample_runtime) sample_callers (VBasic (BInt 7))
           initial eq_refl).
Defined.





Lemma negative_depth_panics_witness :
  Errorf (rt := sample_runtime) sample_callers "%d" [Some (BInt 1)]
    (set_MaxStackDepth initial (-1)) = Panic NegativeLen.
Proof.
  destruct (negative_depth_panics (rt := sample_runtime) sample_callers VNil None
              "read" "%d" [Some (BInt 1)] 0 (set_MaxStackDepth initial (-1)))
    as (_ & _ & _ & _ & H & _); [cbn; lia | reflexivity |].
  exact H.
Defined.

Lemma Is_symmetric_witness :
  Is 8 twin_state (Some (ECommon (Some 0%nat))) (Some (EString 1%nat))
  = Is 8 twin_state (Some (EString 1%nat)) (Some (ECommon (Some 0%nat))).
Proof.
  apply (Is_symmetric twin_state); try reflexivity. cbn; lia.
Defined.

Lemma Is_transitive_witness :
  Is 8 twin_state (Some (ECommon (Some 0%nat))) (Some (ECommon (Some 0%nat))) = Ret true.
Proof.
  apply (Is_transitive twin_state _ (Some (EString 0%nat))); try reflexivity.
  cbn; lia.
Defined.


Lemma Is_nil_witness :
  Is 8 sample_state None (Some (ECommon (Some 0%nat)))
  = Ret (bool_decide (Some (ECommon (Some 0%nat)) = None)).
Proof.
  refine (proj1 (Is_nil sample_state (Some (ECommon (Some 0%nat))) 8 _ _ _));
    [reflexivity | reflexivity | cbn; lia].
Defined.

Lemma Is_ignores_prefix_and_frames_witness :
  exists s1,
    WrapPrefix (rt := sample_runtime) sample_callers (VError (ECommon (Some 0%nat)))
      "read" 0 sample_state = Ret (Some 0%nat, s1)
    /\ forall fuel e original, Is fuel s1 e original = Is fuel sample_state e original.
Proof.
  exact (proj1 (Is_ignores_prefix_and_frames (rt := sample_runtime) sample_callers
                  sample_state 0%nat sample_object "read" 0 eq_refl)).
Defined.

Lemma Unwrap_never_nil_witness :
  exists d s', Unwrap (Some (ECommon (Some 0%nat))) sample_state = Ret (Some d, s').
Proof.
  exact (proj1 (Unwrap_never_nil sample_state (Some (ECommon (Some 0%nat)))
                  eq_refl eq_refl)).
Defined.


Lemma WrapPrefix_empty_prefix_witness :
  exists s',
    WrapPrefix (rt := sample_runtime) sample_callers (VError (ECommon (Some 0%nat)))
      "" 0 sample_state = Ret (Some 0%nat, s')
    /\ s' = sample_state.
Proof.
  destruct (WrapPrefix_empty_prefix (rt := sample_runtime) sample_callers sample_state
              0%nat sample_object 0 eq_refl) as (s' & H1 & H2 & _).
  exists s'. split; [exact H1 | apply H2; reflexivity].
Defined.

Lemma ErrorStack_repeatable_witness :
  exists m s',
    ErrorStack (rt := sample_runtime) 8 (Some 0%nat) sample_state = Ret (m, s')
    /\ ErrorStack (rt := sample_runtime) 8 (Some 0%nat) s' = Ret (m, s').
Proof.
  destruct (ErrorStack_repeatable sample_runtime sample_runtime sample_state 0%nat
              sample_object 8) as (m & s' & H1 & H2 & _);
    [reflexivity | reflexivity | lia |].
  exists m, s'. split; assumption.
Defined.

Lemma TypeErrorStack_is_TypeName_ErrorStack_witness :
  exists t m s',
    TypeName sample_state (Some 0%nat) = Ret t
    /\ ErrorStack (rt := sample_runtime) 8 (Some 0%nat) sample_state = Ret (m, s')
    /\ TypeErrorStack (rt := sample_runtime) 8 (Some 0%nat) sample_state
       = Ret (t +:+ " " +:+ m, s').
Proof.
  apply (TypeErrorStack_is_TypeName_ErrorStack (rt := sample_runtime) sample_state
           0%nat sample_object 8); [reflexivity | reflexivity | lia].
Defined.


Lemma zero_depth_captures_nothing_witness :
  exists p s' c,
    New (rt := sample_runtime) sample_callers (VBasic (BString "boom"))
      (set_MaxStackDepth initial 0) = Ret (Some p, s')
    /\ objects s' !! p = Some c
    /\ stack c = [].
Proof.
  destruct (zero_depth_captures_nothing (rt := sample_runtime) sample_callers
              (set_MaxStackDepth initial 0) (VBasic (BString "boom")) 0)
    as (p & s' & c & H1 & H2 & H3 & _); [reflexivity | reflexivity |].
  exists p, s', c. repeat split; assumption.
Defined.
